(** * parse_divan: price collection from catalogue pages

    A shallow embedding of [scripts/parse_divan.py] and the properties of
    its extractor, collector, CSV writer and entry point.

    Python values are modelled as follows.
    - [str] is a sequence of Unicode code points, [list N];
    - [int] is [Z]; the [float] delay, which is only passed on to
      [time.sleep], is a rational;
    - the [seen] set of the extractor is a [gset] of strings;
    - a [Path] is the list of its components, outermost first;
    - the file system touched by [save_to_csv] is a set of directories and a
      finite map from paths to the text written to them;
    - the requests and pauses of a run are kept in a log;
    - the network ([requests.get]) and the HTML renderer
      ([BeautifulSoup(...).get_text]) are third-party code and enter as
      section variables.
    Console output is informational and is not modelled. *)

From Stdlib Require Import ZArith NArith QArith List String Ascii Sorted Lia.
From stdpp Require Import base decidable option list numbers sets gmap strings.

#[local] Set Warnings "-clear-no-such-hyp".

Open Scope N_scope.

(** ** Text *)

Abbreviation char := N.
Abbreviation str := (list N).

(** Source literals are written as UTF-8 strings and decoded to code points.
    [utf8_dec need acc bs]: [need] continuation bytes are still expected for
    the code point whose high bits are [acc]. *)
Fixpoint utf8_dec (need : nat) (acc : N) (bs : list N) : str :=
  match bs with
  | [] => []
  | b :: bs' =>
      match need with
      | S k =>
          let acc' := acc * 64 + b mod 64 in
          match k with
          | O => acc' :: utf8_dec O 0 bs'
          | S _ => utf8_dec k acc' bs'
          end
      | O =>
          if b <? 128 then b :: utf8_dec O 0 bs'
          else if b <? 224 then utf8_dec 1 (b mod 32) bs'
          else if b <? 240 then utf8_dec 2 (b mod 16) bs'
          else utf8_dec 3 (b mod 8) bs'
      end
  end.

Definition utf8 (s : string) : str :=
  utf8_dec O 0 (List.map N_of_ascii (list_ascii_of_string s)).

Definition QUOTE : char := 34.
Definition NEWLINE : char := 10.

(** ** Character classes of [re] on [str] patterns

    [\d] is the Unicode category Nd and [\s] is [str.isspace]; the tables
    are those of Unicode 14.0. *)
Definition Nd_ranges : list (N * N) :=
  [ (48, 57); (1632, 1641); (1776, 1785); (1984, 1993); (2406, 2415);
    (2534, 2543); (2662, 2671); (2790, 2799); (2918, 2927); (3046, 3055);
    (3174, 3183); (3302, 3311); (3430, 3439); (3558, 3567); (3664, 3673);
    (3792, 3801); (3872, 3881); (4160, 4169); (4240, 4249); (6112, 6121);
    (6160, 6169); (6470, 6479); (6608, 6617); (6784, 6793); (6800, 6809);
    (6992, 7001); (7088, 7097); (7232, 7241); (7248, 7257); (42528, 42537);
    (43216, 43225); (43264, 43273); (43472, 43481); (43504, 43513);
    (43600, 43609); (44016, 44025); (65296, 65305); (66720, 66729);
    (68912, 68921); (69734, 69743); (69872, 69881); (69942, 69951);
    (70096, 70105); (70384, 70393); (70736, 70745); (70864, 70873);
    (71248, 71257); (71360, 71369); (71472, 71481); (71904, 71913);
    (72016, 72025); (72784, 72793); (73040, 73049); (73120, 73129);
    (92768, 92777); (92864, 92873); (93008, 93017); (120782, 120831);
    (123200, 123209); (123632, 123641); (125264, 125273); (130032, 130041) ].

Definition space_ranges : list (N * N) :=
  [ (9, 13); (28, 32); (133, 133); (160, 160); (5760, 5760); (8192, 8202);
    (8232, 8233); (8239, 8239); (8287, 8287); (12288, 12288) ].

Definition in_ranges (rs : list (N * N)) (c : char) : bool :=
  existsb (fun r => (fst r <=? c) && (c <=? snd r)) rs.

Definition uni_digit : char -> bool := in_ranges Nd_ranges.
Definition uni_space : char -> bool := in_ranges space_ranges.

(** ** The fragment of [re] used by the script

    A pattern is a sequence of items; an item is a character set taken once
    or one-or-more times (greedy [+]). *)
Inductive quant := One | Plus.

Definition charset := char -> bool.
Definition regex := list (charset * quant).

Definition lit (c : char) : charset := fun x => N.eqb x c.
Definition cls_digit : charset := uni_digit.
Definition cls_digit_space : charset := fun x => uni_digit x || uni_space x.

(** [PRICE_PATTERN = re.compile(r"\d[\d\s]+руб\.")] *)
Definition PRICE_PATTERN : regex :=
  [ (cls_digit, One); (cls_digit_space, Plus);
    (lit 1088, One); (lit 1091, One); (lit 1073, One); (lit 46, One) ].

(** The language of a pattern. *)
Inductive re_lang : regex -> str -> Prop :=
  | re_lang_nil : re_lang [] []
  | re_lang_one cs r c s :
      cs c = true -> re_lang r s -> re_lang ((cs, One) :: r) (c :: s)
  | re_lang_plus cs r c run s :
      cs c = true -> forallb cs run = true -> re_lang r s ->
      re_lang ((cs, Plus) :: r) (c :: run ++ s).

(** The backtracking matcher.  [repeat_greedy cs k s] is the tail of a
    greedy repetition: it takes one more character of the set when that
    leads to a match and otherwise hands over to the continuation [k].
    Results are the number of characters consumed. *)
Fixpoint repeat_greedy (cs : charset) (k : str -> option nat) (s : str)
  : option nat :=
  match s with
  | c :: s' =>
      if cs c then
        match repeat_greedy cs k s' with
        | Some n => Some (S n)
        | None => k s
        end
      else k s
  | [] => k s
  end.

Fixpoint match_here (r : regex) {struct r} : str -> option nat :=
  match r with
  | [] => fun _ => Some O
  | (cs, One) :: r' => fun s =>
      match s with
      | c :: s' => if cs c then S <$> match_here r' s' else None
      | [] => None
      end
  | (cs, Plus) :: r' => fun s =>
      match s with
      | c :: s' =>
          if cs c then S <$> repeat_greedy cs (match_here r') s' else None
      | [] => None
      end
  end.

(** [pattern.findall(text)] for a pattern without groups: the matched
    substrings, scanning left to right without overlap.  [skip] counts the
    characters of the previous match that are still to be passed. *)
Fixpoint findall_from (r : regex) (skip : nat) (s : str) : list str :=
  match s with
  | [] =>
      match skip, match_here r [] with
      | O, Some _ => [[]]
      | _, _ => []
      end
  | _ :: s' =>
      match skip with
      | S k => findall_from r k s'
      | O =>
          match match_here r s with
          | Some n => take n s :: findall_from r (pred n) s'
          | None => findall_from r O s'
          end
      end
  end.

Definition findall (r : regex) (s : str) : list str := findall_from r O s.

(** ** Integers in f-strings: [str(int)] *)

Fixpoint dec_digits (fuel : nat) (n : N) (acc : str) : str :=
  match fuel with
  | O => acc
  | S f =>
      let acc' := (48 + n mod 10) :: acc in
      if n <? 10 then acc' else dec_digits f (n / 10) acc'
  end.

Definition str_of_N (n : N) : str :=
  dec_digits (S (N.to_nat (N.log2 n))) n [].

Definition str_of_int (z : Z) : str :=
  if (z <? 0)%Z then 45 :: str_of_N (Z.abs_N z) else str_of_N (Z.to_N z).

(** ** Configuration *)

Definition BASE_URL : str := utf8 "https://www.divan.ru/category/divany".
Definition PAGES_TO_FETCH : Z := 2.
Definition REQUEST_DELAY : Q := 3 # 2.

(** ** The world: request log and file system *)

Abbreviation path := (list string).

Inductive event :=
  | EGet (url : str)
  | ESleep (delay : Q).

Record world := World {
  w_log : list event;
  w_dirs : gset (list string);
  w_files : gmap (list string) (list N)
}.

Definition M (A : Type) : Type := world -> A * world.

#[global] Instance M_ret : MRet M := fun A x w => (x, w).
#[global] Instance M_bind : MBind M :=
  fun A B f m w => let '(x, w') := m w in f x w'.

Definition emit (e : event) : M unit :=
  fun w => (tt, World (w_log w ++ [e]) (w_dirs w) (w_files w)).

(** [time.sleep(delay)] for a delay that is not negative.  A negative delay
    makes [time.sleep] raise [ValueError], which nothing in the script
    catches; statements about the pauses of a run assume [0 <= delay]. *)
Definition time_sleep (delay : Q) : M unit := emit (ESleep delay).

(** [for x in xs: state = body(state, x)] *)
Fixpoint for_each {A S : Type} (xs : list A) (body : S -> A -> M S) (s : S)
  : M S :=
  match xs with
  | [] => mret s
  | x :: xs' => s' ← body s x; for_each xs' body s'
  end.

(** [range(lo, hi)] *)
Definition py_range (lo hi : Z) : list Z := seqZ lo (hi - lo).

(** *** pathlib *)

Definition parent (p : path) : path := take (pred (length p)) p.

(** The directory itself and its ancestors, outermost first. *)
Definition with_ancestors (p : path) : list path :=
  (fun n => take n p) <$> seq 1 (length p).

(** [p.mkdir(parents=True, exist_ok=True)] *)
Definition mkdir_parents (p : path) : M unit :=
  fun w => (tt, World (w_log w)
                      (list_to_set (with_ancestors p) ∪ w_dirs w)
                      (w_files w)).

(** [open(p, "w", encoding="utf-8-sig")]: the file is created or truncated.
    The map holds the text passed to [write]; the codec sits below it. *)
Definition open_w (p : path) : M unit :=
  fun w => (tt, World (w_log w) (w_dirs w) (<[p := []]> (w_files w))).

(** [f.write(text)] for a text the codec can encode.  A lone surrogate
    makes the write raise [UnicodeEncodeError]; statements about what a file
    holds for arbitrary strings assume [utf8_encodable] characters. *)
Definition file_write (p : path) (text : str) : M unit :=
  fun w => (tt, World (w_log w) (w_dirs w)
                      (alter (fun old => old ++ text) p (w_files w))).

(** [s.replace(old, new)] for a one-character [old]. *)
Definition replace_char (old : char) (new : str) (s : str) : str :=
  flat_map (fun c => if N.eqb c old then new else [c]) s.

Section Script.

(** [BeautifulSoup(html, "html.parser").get_text(" ", strip=True)] *)
Variable get_text : str -> str.

(** [requests.get(url, headers=HEADERS, timeout=REQUEST_TIMEOUT)] followed by
    [raise_for_status()]: the body, or [None] for a [RequestException]. *)
Variable http_get : str -> option str.

(** [Path(__file__)] *)
Variable script_file : path.

Definition DATA_DIR : path := parent (parent script_file) ++ ["data"%string].
Definition OUTPUT_FILE : path := DATA_DIR ++ ["divan_prices_raw.csv"%string].

Definition fetch_page (url : str) : M (option str) :=
  _ ← emit (EGet url);
  match http_get url with
  | Some text => mret (Some text)
  | None => mret None
  end.

(** One turn of the deduplication loop over [(seen, unique_prices)]. *)
Definition dedup_step (st : gset (list N) * list str) (price : str)
  : gset (list N) * list str :=
  let '(seen, unique_prices) := st in
  if decide (price ∈ seen) then st
  else ({[price]} ∪ seen, unique_prices ++ [price]).

Definition extract_prices_from_html (html : str) : list str :=
  let page_text := get_text html in
  let matches := findall PRICE_PATTERN page_text in
  snd (foldl dedup_step (∅, []) matches).

Definition build_page_url (base_url : str) (page : Z) : str :=
  if decide (page = 1%Z) then base_url
  else base_url ++ utf8 "?page=" ++ str_of_int page.

(** The body of the page loop; the loop state is [all_prices]. *)
Definition collect_page (base_url : str) (pages : Z) (delay : Q)
    (all_prices : list str) (page_num : Z) : M (list str) :=
  let url := build_page_url base_url page_num in
  html ← fetch_page url;
  match html with
  | None => mret all_prices
  | Some html =>
      let page_prices := extract_prices_from_html html in
      let all_prices := all_prices ++ page_prices in
      if decide (page_num < pages)%Z
      then _ ← time_sleep delay; mret all_prices
      else mret all_prices
  end.

Definition collect_prices (base_url : str) (pages : Z) (delay : Q)
  : M (list str) :=
  for_each (py_range 1 (pages + 1)) (collect_page base_url pages delay) [].

Definition csv_row (price : str) : str :=
  let escaped := replace_char QUOTE [QUOTE; QUOTE] price in
  [QUOTE] ++ escaped ++ [QUOTE; NEWLINE].

Definition save_to_csv (prices : list str) (output_path : path) : M unit :=
  _ ← mkdir_parents (parent output_path);
  _ ← open_w output_path;
  _ ← file_write output_path (utf8 "price_raw" ++ [NEWLINE]);
  for_each prices
    (fun (_ : unit) price => file_write output_path (csv_row price)) tt.

Definition main : M Z :=
  prices ← collect_prices BASE_URL PAGES_TO_FETCH REQUEST_DELAY;
  match prices with
  | [] => mret 1%Z
  | _ :: _ =>
      _ ← save_to_csv prices OUTPUT_FILE;
      mret 0%Z
  end.

End Script.

(** * Definitions used in the statements *)

(** ** The deduplication loop *)

(** What the loop appends when it starts with [seen]. *)
Fixpoint fresh_from (seen : gset (list N)) (l : list str) : list str :=
  match l with
  | [] => []
  | x :: l' =>
      if decide (x ∈ seen) then fresh_from seen l'
      else x :: fresh_from ({[x]} ∪ seen) l'
  end.

(** Position [i] of [ms] holds a value that does not occur before it. *)
Definition first_occurrence (ms : list str) (i : nat) : Prop :=
  exists x, ms !! i = Some x /\ x ∉ take i ms.

(** ** Decimal digits *)

(** Reading a digit string back, most significant digit first. *)
Definition digits_value (ds : str) : N :=
  foldl (fun v d => 10 * v + (d - 48)) 0 ds.

Definition ascii_digit (c : char) : bool := (48 <=? c) && (c <=? 57).

(** [ds] is the decimal representation of the non-negative integer [k]:
    ASCII digits, no leading zero unless it is the single digit [0], and
    value [k]. *)
Definition decimal_of (k : Z) (ds : str) : Prop :=
  forallb ascii_digit ds = true /\
  (exists d ds', ds = d :: ds' /\ (d = 48 -> ds' = [])) /\
  Z.of_N (digits_value ds) = k.

(** [ds] spells [n] in decimal without a leading zero, except for [0]. *)
Definition spells (n : N) (ds : str) : Prop :=
  forallb ascii_digit ds = true /\
  digits_value ds = n /\
  exists d ds', ds = d :: ds' /\ (d = 48 -> n = 0).

(** Quotients and remainders are named before linear arithmetic runs. *)
Ltac name_divmod :=
  repeat match goal with
  | |- context [?a / ?b] =>
      let q := fresh "q" in set (q := a / b) in *; clearbody q
  | |- context [?a mod ?b] =>
      let r := fresh "r" in set (r := a mod b) in *; clearbody r
  | H : context [?a / ?b] |- _ =>
      let q := fresh "q" in set (q := a / b) in *; clearbody q
  | H : context [?a mod ?b] |- _ =>
      let r := fresh "r" in set (r := a mod b) in *; clearbody r
  end.

(** ** Runs of the collector *)

(** What one page adds to the result. *)
Definition page_contribution (get_text : str -> str)
    (http_get : str -> option str) (base_url : str) (page_num : Z)
  : list str :=
  match http_get (build_page_url base_url page_num) with
  | Some html => extract_prices_from_html get_text html
  | None => []
  end.

(** What one page adds to the log: its request, then the pause when the
    page was fetched and is not the last one. *)
Definition page_events (http_get : str -> option str) (base_url : str)
    (pages : Z) (delay : Q) (page_num : Z) : list event :=
  EGet (build_page_url base_url page_num) ::
  if decide (is_Some (http_get (build_page_url base_url page_num)) /\
             (page_num < pages)%Z)
  then [ESleep delay] else [].

(** The URLs requested, in order. *)
Definition requests (log : list event) : list str :=
  omap (fun e => match e with EGet url => Some url | ESleep _ => None end) log.

(** The pauses taken, in order. *)
Definition pauses (log : list event) : list Q :=
  omap (fun e => match e with ESleep d => Some d | EGet _ => None end) log.

(** [text] has a substring that is a word of the price pattern. *)
Definition contains_price (text : str) : Prop :=
  exists pre w post, text = pre ++ w ++ post /\ re_lang PRICE_PATTERN w.

(** [x] occurs in [text] as a contiguous substring. *)
Definition substring_of (x text : str) : Prop :=
  exists pre post, text = pre ++ x ++ post.

(** How often [x] occurs in [l]. *)
Definition occurrences (x : str) (l : list str) : nat :=
  length (filter (fun y => y = x) l).

(** Code points the [utf-8-sig] codec accepts: Unicode scalar values, that
    is everything up to U+10FFFF except the surrogates U+D800..U+DFFF. *)
Definition utf8_encodable (c : char) : bool :=
  (c <? 55296) || ((57343 <? c) && (c <=? 1114111)).

(** How many quote characters [s] holds. *)
Definition quote_count (s : str) : nat :=
  length (filter (fun c => c = QUOTE) s).

(** ** Files *)

Definition CSV_HEADER : str := utf8 "price_raw" ++ [NEWLINE].

(** A directory is present when it is the starting directory (the empty
    path) or has been created. *)
Definition dir_exists (w : world) (d : path) : Prop :=
  d = [] \/ d ∈ w_dirs w.

(** *** Reading the file back

    The reader of the round-trip property: it passes over the header line
    and undoes the quoting of each row.  Inside a quoted value a doubled
    quote stands for one quote, and a single quote ends the value; the row
    ends with the line break that follows. *)
Inductive reader_state := AtRowStart | InValue | AfterQuote.

Definition push_char (c : char) (rows : list str) : option (list str) :=
  match rows with
  | r :: rs => Some ((c :: r) :: rs)
  | [] => None
  end.

Fixpoint csv_rows (st : reader_state) (s : str) : option (list str) :=
  match s with
  | [] =>
      match st with
      | AtRowStart => Some []
      | InValue | AfterQuote => None
      end
  | c :: s' =>
      match st with
      | AtRowStart => if c =? QUOTE then csv_rows InValue s' else None
      | InValue =>
          if c =? QUOTE then csv_rows AfterQuote s'
          else csv_rows InValue s' ≫= push_char c
      | AfterQuote =>
          if c =? QUOTE then csv_rows InValue s' ≫= push_char QUOTE
          else if c =? NEWLINE then cons [] <$> csv_rows AtRowStart s'
          else None
      end
  end.

Fixpoint skip_line (s : str) : str :=
  match s with
  | [] => []
  | c :: s' => if c =? NEWLINE then s' else skip_line s'
  end.

Definition csv_read (text : str) : option (list str) :=
  csv_rows AtRowStart (skip_line text).

(** ** Sample documents and runs

    [strip_tags] drops everything between [<] and [>]; it stands in for the
    HTML renderer in the examples, where both agree. *)
Fixpoint strip_tags (in_tag : bool) (s : str) : str :=
  match s with
  | [] => []
  | c :: s' =>
      if c =? 60 then strip_tags true s'
      else if c =? 62 then strip_tags false s'
      else if in_tag then strip_tags true s'
      else c :: strip_tags false s'
  end.

Definition sample_html : str :=
  utf8 "<p>Цена 68 990 руб. Цена 68 990 руб. скидка</p>".
Definition sample_text : str :=
  utf8 "Цена 68 990 руб. Цена 68 990 руб. скидка".

(** Sample runs: a catalogue that serves the sample document on every page,
    and one whose second page cannot be fetched. *)
Definition same_page_everywhere (url : str) : option str := Some sample_html.

Definition ten_thousand_html : str := utf8 "<p>10 000 руб.</p>".

Definition second_page_down (url : str) : option str :=
  if decide (url = BASE_URL) then Some ten_thousand_html else None.

Definition fresh_world : world := World [] ∅ ∅.

Definition sample_script_file : path :=
  ["az03"; "scripts"; "parse_divan.py"]%string.

(** * Properties *)


Example utf8_rub : utf8 "руб." = [1088; 1091; 1073; 46].
Proof. reflexivity. Qed.

Example strip_tags_sample : strip_tags false sample_html = sample_text.
Proof. vm_compute. reflexivity. Qed.

Example findall_two :
  findall PRICE_PATTERN (utf8 "Цена 68 990 руб. от 45 990 руб. и 7руб.")
  = [utf8 "68 990 руб."; utf8 "45 990 руб."].
Proof. vm_compute. reflexivity. Qed.

Example extract_sample :
  extract_prices_from_html (strip_tags false) sample_html
  = [utf8 "68 990 руб."].
Proof. vm_compute. reflexivity. Qed.

(** ** The matcher stays inside the language of the pattern *)

Lemma repeat_greedy_sound cs k s n :
  repeat_greedy cs k s = Some n ->
  exists m, (m <= n)%nat /\ forallb cs (take m s) = true /\
            k (drop m s) = Some (n - m)%nat.
Proof.
  revert n. induction s as [|c s IH]; intros n H; simpl in H.
  - exists O. rewrite Nat.sub_0_r. repeat split; [lia | done].
  - destruct (cs c) eqn:Hc.
    + destruct (repeat_greedy cs k s) as [n'|] eqn:Hr.
      * injection H as <-. destruct (IH n' eq_refl) as (m & Hle & Hall & Hk).
        exists (S m). simpl. rewrite Hc, Hall. repeat split; [lia | done].
      * exists O. rewrite Nat.sub_0_r. repeat split; [lia | done].
    + exists O. rewrite Nat.sub_0_r. repeat split; [lia | done].
Qed.

Lemma match_here_sound r s n :
  match_here r s = Some n -> re_lang r (take n s).
Proof.
  revert s n. induction r as [|[cs q] r IH]; intros s n H; simpl in H.
  - injection H as <-. rewrite take_0. constructor.
  - destruct q, s as [|c s]; try discriminate;
      destruct (cs c) eqn:Hc; try discriminate.
    + destruct (match_here r s) as [n'|] eqn:Hm; [|discriminate].
      injection H as <-. simpl. constructor; [done | by apply IH].
    + destruct (repeat_greedy cs (match_here r) s) as [n'|] eqn:Hm;
        [|discriminate].
      injection H as <-. simpl.
      destruct (repeat_greedy_sound _ _ _ _ Hm) as (m & Hle & Hall & Hk).
      replace (take n' s) with (take m s ++ take (n' - m) (drop m s)).
      * constructor; [done | done | by apply IH].
      * rewrite <- (take_drop m s) at 3.
        rewrite take_app, length_take.
        destruct (decide (m <= length s)%nat) as [Hl|Hl].
        -- rewrite Nat.min_l by done.
           rewrite (take_ge (take m s)) by (rewrite length_take; lia).
           done.
        -- rewrite !drop_ge by lia. rewrite !take_nil, !app_nil_r.
           rewrite take_take. f_equal. lia.
Qed.

Lemma findall_from_sound r skip s x :
  x ∈ findall_from r skip s -> re_lang r x.
Proof.
  revert skip. induction s as [|c s IH]; intros skip H; simpl in H.
  - destruct skip; [|by apply elem_of_nil in H].
    destruct (match_here r []) as [n|] eqn:Hm; [|by apply elem_of_nil in H].
    apply list_elem_of_singleton in H as ->.
    apply match_here_sound in Hm. by rewrite take_nil in Hm.
  - destruct skip as [|k]; [|by eapply IH].
    destruct (match_here r (c :: s)) as [n|] eqn:Hm; [|by eapply IH].
    apply elem_of_cons in H as [->|H]; [|by eapply IH].
    by apply match_here_sound.
Qed.

(** Words of the price pattern, spelled out. *)
Lemma price_lang_shape x :
  re_lang PRICE_PATTERN x <->
  exists d run, x = d :: run ++ utf8 "руб." /\ uni_digit d = true /\
                run <> [] /\ forallb cls_digit_space run = true.
Proof.
  unfold PRICE_PATTERN. split.
  - intros H.
    inversion H as [|? ? d s1 Hd H1|]; subst; clear H.
    inversion H1 as [| |? ? c run s2 Hc Hrun H2]; subst; clear H1.
    inversion H2 as [|? ? c1 s3 Hc1 H3|]; subst; clear H2.
    inversion H3 as [|? ? c2 s4 Hc2 H4|]; subst; clear H3.
    inversion H4 as [|? ? c3 s5 Hc3 H5|]; subst; clear H4.
    inversion H5 as [|? ? c4 s6 Hc4 H6|]; subst; clear H5.
    inversion H6; subst; clear H6.
    unfold lit in *.
    apply N.eqb_eq in Hc1, Hc2, Hc3, Hc4. subst.
    exists d, (c :: run). repeat split; try done.
    simpl. by rewrite Hc, Hrun.
  - intros (d & run & -> & Hd & Hne & Hrun).
    destruct run as [|c run]; [done|]. simpl in Hrun.
    apply andb_true_iff in Hrun as [Hc Hrun].
    change (re_lang
      [(cls_digit, One); (cls_digit_space, Plus); (lit 1088, One);
       (lit 1091, One); (lit 1073, One); (lit 46, One)]
      (d :: c :: run ++ [1088; 1091; 1073; 46])).
    repeat (constructor; try done).
Qed.

(** ** The deduplication loop *)

Lemma dedup_loop seen acc l :
  foldl dedup_step (seen, acc) l
  = (list_to_set l ∪ seen, acc ++ fresh_from seen l).
Proof.
  revert seen acc. induction l as [|x l IH]; intros seen acc; simpl.
  - f_equal; [set_solver | by rewrite app_nil_r].
  - destruct (decide (x ∈ seen)) as [Hin|Hin].
    + rewrite IH. f_equal. set_solver.
    + rewrite IH, <- app_assoc. f_equal. set_solver.
Qed.

Lemma fresh_from_elem seen l x :
  x ∈ fresh_from seen l <-> x ∈ l /\ x ∉ seen.
Proof.
  revert seen. induction l as [|y l IH]; intros seen; simpl.
  - set_solver.
  - destruct (decide (y ∈ seen)) as [Hin|Hin].
    + rewrite IH. set_solver.
    + rewrite elem_of_cons, IH. split.
      * intros [->|[H1 H2]]; set_solver.
      * intros [H1 H2]. destruct (decide (x = y)) as [->|Hne]; set_solver.
Qed.

Lemma fresh_from_NoDup seen l : NoDup (fresh_from seen l).
Proof.
  revert seen. induction l as [|y l IH]; intros seen; simpl.
  - constructor.
  - destruct (decide (y ∈ seen)); [apply IH|].
    constructor; [|apply IH]. rewrite fresh_from_elem. set_solver.
Qed.

Lemma fresh_from_positions seen l :
  exists idx : list nat,
    StronglySorted lt idx /\
    (forall i, i ∈ idx <->
       exists x, l !! i = Some x /\ (x ∉ seen) /\ x ∉ take i l) /\
    Forall2 (fun i x => l !! i = Some x) idx (fresh_from seen l).
Proof.
  revert seen. induction l as [|y l IH]; intros seen; simpl.
  - exists []. split; [constructor|]. split; [|constructor].
    intros i. split; [by intros ?%elem_of_nil|].
    by intros (x & Hx & _).
  - assert (Hshift : forall idx : list nat,
              StronglySorted lt idx -> StronglySorted lt (S <$> idx)).
    { induction 1 as [|a idx Hs IHs Hall]; simpl; constructor; [done|].
      apply Forall_fmap. eapply Forall_impl; [exact Hall|].
      intros b Hb. simpl. lia. }
    destruct (decide (y ∈ seen)) as [Hin|Hin].
    + destruct (IH seen) as (idx & Hs & Hm & Hf).
      exists (S <$> idx). split; [by apply Hshift|]. split.
      * intros i. rewrite list_elem_of_fmap. split.
        -- intros (j & -> & Hj). apply Hm in Hj as (x & Hx & Hns & Hnt).
           exists x. simpl. repeat split; [done | done |].
           rewrite not_elem_of_cons. split; [|done]. by intros ->.
        -- intros (x & Hx & Hns & Hnt). destruct i as [|j]; simpl in *.
           { injection Hx as ->. done. }
           exists j. split; [done|]. apply Hm. exists x.
           apply not_elem_of_cons in Hnt as [_ Hnt]. done.
      * apply Forall2_fmap_l. eapply Forall2_impl; [exact Hf|]. done.
    + destruct (IH ({[y]} ∪ seen)) as (idx & Hs & Hm & Hf).
      exists (O :: (S <$> idx)). split; [|split].
      * constructor; [by apply Hshift|].
        apply Forall_fmap, Forall_forall. intros; simpl; lia.
      * intros i. rewrite elem_of_cons, list_elem_of_fmap. split.
        -- intros [->|(j & -> & Hj)].
           { exists y. simpl. repeat split; [done|]. apply not_elem_of_nil. }
           apply Hm in Hj as (x & Hx & Hns & Hnt).
           exists x. simpl. repeat split; [done | set_solver |].
           rewrite not_elem_of_cons. set_solver.
        -- intros (x & Hx & Hns & Hnt). destruct i as [|j]; [by left|].
           right. exists j. split; [done|]. apply Hm. exists x.
           simpl in *. apply not_elem_of_cons in Hnt as [Hne Hnt].
           repeat split; [done | set_solver | done].
      * constructor; [done|].
        apply Forall2_fmap_l. eapply Forall2_impl; [exact Hf|]. done.
Qed.

(** ** The extractor *)

Lemma extract_prices_unfold (get_text : str -> str) (html : str) :
  extract_prices_from_html get_text html
  = fresh_from ∅ (findall PRICE_PATTERN (get_text html)).
Proof. unfold extract_prices_from_html. by rewrite dedup_loop. Qed.

Lemma extract_prices_NoDup (get_text : str -> str) (html : str) :
  NoDup (extract_prices_from_html get_text html).
Proof. rewrite extract_prices_unfold. apply fresh_from_NoDup. Qed.

(** C3: for every HTML input the extractor returns a list without
    duplicates, each element of which is a word of the price pattern
    [\d[\d\s]+руб\.] (a full match, not a substring match). *)
Theorem extract_prices_distinct_matches (get_text : str -> str) (html : str) :
  NoDup (extract_prices_from_html get_text html) /\
  Forall (re_lang PRICE_PATTERN) (extract_prices_from_html get_text html).
Proof.
  split; [apply extract_prices_NoDup|].
  rewrite extract_prices_unfold. apply Forall_forall. intros x Hx.
  apply fresh_from_elem in Hx as [Hx _].
  by apply findall_from_sound in Hx.
Qed.

(** C4: the output consists of the matches at the first-occurrence positions
    of the match list, in increasing position order, so the first occurrence
    of every distinct value is kept in its relative order and every repeat is
    dropped.  On the sample document, whose rendered text is the paragraph
    text, the result is the single entry [68 990 руб.]. *)
Theorem extract_prices_first_occurrences (get_text : str -> str) (html : str) :
  (exists idx : list nat,
     StronglySorted lt idx /\
     (forall i, i ∈ idx <->
        first_occurrence (findall PRICE_PATTERN (get_text html)) i) /\
     Forall2 (fun i x => findall PRICE_PATTERN (get_text html) !! i = Some x)
             idx (extract_prices_from_html get_text html)) /\
  (get_text sample_html = sample_text ->
   extract_prices_from_html get_text sample_html = [utf8 "68 990 руб."]).
Proof.
  split.
  - rewrite extract_prices_unfold.
    destruct (fresh_from_positions ∅ (findall PRICE_PATTERN (get_text html)))
      as (idx & Hs & Hm & Hf).
    exists idx. repeat split; try done.
    + intros Hi. apply Hm in Hi as (x & Hx & _ & Hn). by exists x.
    + intros (x & Hx & Hn). apply Hm. exists x. set_solver.
  - intros Htext. unfold extract_prices_from_html. rewrite Htext.
    vm_compute. reflexivity.
Qed.

Lemma extract_prices_first_occurrences_witness :
  strip_tags false sample_html = sample_text /\
  extract_prices_from_html (strip_tags false) sample_html
  = [utf8 "68 990 руб."].
Proof.
  split; [vm_compute; reflexivity|].
  apply (proj2 (extract_prices_first_occurrences (strip_tags false)
                  sample_html)).
  vm_compute; reflexivity.
Defined.

(** ** Page URLs *)

Lemma digits_value_snoc ds d :
  digits_value (ds ++ [d]) = 10 * digits_value ds + (d - 48).
Proof. unfold digits_value. by rewrite foldl_app. Qed.

Lemma ascii_digit_mod n : ascii_digit (48 + n mod 10) = true.
Proof.
  assert (n mod 10 < 10) by (apply N.mod_lt; lia).
  unfold ascii_digit. apply andb_true_iff.
  split; apply N.leb_le; name_divmod; lia.
Qed.

Lemma spells_small n : n < 10 -> spells n [48 + n mod 10].
Proof.
  intros Hlt. rewrite N.mod_small by done. repeat split.
  - simpl. pose proof (ascii_digit_mod n) as H.
    rewrite N.mod_small in H by done. by rewrite H.
  - unfold digits_value. simpl. lia.
  - exists (48 + n), []. split; [done | lia].
Qed.

Lemma spells_snoc n ds :
  10 <= n -> spells (n / 10) ds -> spells n (ds ++ [48 + n mod 10]).
Proof.
  intros Hge (Hall & Hval & d & ds' & -> & Hz). repeat split.
  - rewrite forallb_app, Hall. simpl. by rewrite ascii_digit_mod.
  - rewrite digits_value_snoc, Hval.
    assert (n = 10 * (n / 10) + n mod 10) by (apply N.div_mod; lia).
    name_divmod; lia.
  - exists d, (ds' ++ [48 + n mod 10]). split; [done|].
    intros Hd. apply Hz in Hd.
    assert (1 <= n / 10) by (apply N.div_le_lower_bound; lia).
    name_divmod; lia.
Qed.

Lemma dec_digits_S fuel n acc :
  dec_digits (S fuel) n acc
  = if n <? 10 then (48 + n mod 10) :: acc
    else dec_digits fuel (n / 10) ((48 + n mod 10) :: acc).
Proof. reflexivity. Qed.

Lemma dec_digits_spec fuel n acc :
  n < 10 ^ N.of_nat (S fuel) ->
  exists ds, dec_digits (S fuel) n acc = ds ++ acc /\ spells n ds.
Proof.
  revert n acc. induction fuel as [|fuel IH]; intros n acc Hn;
    rewrite dec_digits_S; destruct (N.ltb_spec n 10) as [Hlt|Hge].
  - exists [48 + n mod 10]. split; [done | by apply spells_small].
  - simpl in Hn. lia.
  - exists [48 + n mod 10]. split; [done | by apply spells_small].
  - destruct (IH (n / 10) ((48 + n mod 10) :: acc)) as (ds & Heq & Hsp).
    { apply N.Div0.div_lt_upper_bound.
      rewrite Nat2N.inj_succ, N.pow_succ_r' in Hn. lia. }
    exists (ds ++ [48 + n mod 10]). split.
    + rewrite Heq. by rewrite <- app_assoc.
    + by apply spells_snoc.
Qed.

Lemma str_of_N_spec n :
  forallb ascii_digit (str_of_N n) = true /\
  digits_value (str_of_N n) = n /\
  (exists d ds', str_of_N n = d :: ds' /\ (d = 48 -> ds' = [])).
Proof.
  unfold str_of_N.
  destruct (dec_digits_spec (N.to_nat (N.log2 n)) n [])
    as (ds & Heq & Hall & Hval & d & ds' & -> & Hz).
  - rewrite Nat2N.inj_succ, N2Nat.id.
    destruct (N.eq_dec n 0) as [->|Hne]; [done|].
    apply N.lt_le_trans with (2 ^ N.succ (N.log2 n)).
    + apply N.log2_spec. lia.
    + apply N.pow_le_mono_l. lia.
  - rewrite app_nil_r in Heq. rewrite Heq. repeat split; try done.
    exists d, ds'. split; [done|]. intros Hd.
    apply Hz in Hd. rewrite Hd in Heq.
    cbv in Heq. by injection Heq as _ <-.
Qed.

(** C6: page 1 is the base URL itself; for every k > 1 the URL is the base
    followed by [?page=] and the decimal digits of k (ASCII digits, no
    leading zero, value k). *)
Theorem build_page_url_spec (base : str) (k : Z) :
  build_page_url base 1 = base /\
  ((1 < k)%Z ->
   exists ds, decimal_of k ds /\
              build_page_url base k = base ++ utf8 "?page=" ++ ds).
Proof.
  split; [done|]. intros Hk. exists (str_of_N (Z.to_N k)).
  destruct (str_of_N_spec (Z.to_N k)) as (Hall & Hval & d & ds' & Heq & Hz).
  split.
  - repeat split; [done | | rewrite Hval; lia].
    exists d, ds'. split; [done|]. done.
  - unfold build_page_url. destruct (decide (k = 1%Z)) as [->|_]; [lia|].
    unfold str_of_int. destruct (Z.ltb_spec k 0); [lia | done].
Qed.

Lemma build_page_url_spec_witness :
  build_page_url BASE_URL 1 = BASE_URL /\
  exists ds, decimal_of 12 ds /\
             build_page_url BASE_URL 12 = BASE_URL ++ utf8 "?page=" ++ ds.
Proof.
  split; [apply (proj1 (build_page_url_spec BASE_URL 12))|].
  apply (proj2 (build_page_url_spec BASE_URL 12)). lia.
Defined.

Example build_page_url_12 :
  build_page_url BASE_URL 12
  = utf8 "https://www.divan.ru/category/divany?page=12".
Proof. vm_compute. reflexivity. Qed.

(** ** The collector *)

Lemma world_eta w : World (w_log w) (w_dirs w) (w_files w) = w.
Proof. by destruct w. Qed.

Section Collector.

Variable get_text : str -> str.
Variable http_get : str -> option str.
Variables (base_url : str) (pages : Z) (delay : Q).

Lemma collect_loop (ps : list Z) (acc : list str) (w : world) :
  for_each ps (collect_page get_text http_get base_url pages delay) acc w
  = (acc ++ flat_map (page_contribution get_text http_get base_url) ps,
     World (w_log w ++ flat_map (page_events http_get base_url pages delay) ps) (w_dirs w) (w_files w)).
Proof.
  revert acc w. induction ps as [|k ps IH]; intros acc w.
  - simpl. by rewrite !app_nil_r, world_eta.
  - cbn [for_each flat_map]. unfold mbind, M_bind.
    unfold collect_page at 1, fetch_page, page_contribution at 1,
      page_events at 1.
    unfold mbind, M_bind, mret, M_ret, time_sleep, emit. cbn [fst snd].
    destruct (http_get (build_page_url base_url k)) as [html|] eqn:Hget.
    + destruct (decide (k < pages)%Z) as [Hlt|Hge].
      * rewrite decide_True by (split; [by eexists | done]).
        rewrite IH. cbn [w_log w_dirs w_files].
        by rewrite <- !app_assoc.
      * rewrite decide_False by (intros [_ ?]; done).
        rewrite IH. cbn [w_log w_dirs w_files].
        by rewrite <- !app_assoc.
    + rewrite decide_False by (intros [[? ?] _]; done).
      rewrite IH. cbn [w_log w_dirs w_files].
      by rewrite <- !app_assoc.
Qed.

Lemma collect_prices_run (w : world) :
  collect_prices get_text http_get base_url pages delay w
  = (flat_map (page_contribution get_text http_get base_url)
              (seqZ 1 pages),
     World (w_log w ++ flat_map (page_events http_get base_url
                                             pages delay) (seqZ 1 pages))
           (w_dirs w) (w_files w)).
Proof.
  unfold collect_prices, py_range. rewrite Z.add_simpl_r.
  by rewrite collect_loop.
Qed.

End Collector.

Lemma requests_page_events http_get base_url pages delay ps :
  requests (flat_map (page_events http_get base_url pages delay) ps)
  = build_page_url base_url <$> ps.
Proof.
  induction ps as [|k ps IH]; [done|].
  cbn [flat_map]. unfold requests in *. rewrite omap_app, IH.
  unfold page_events. by case_decide.
Qed.

Example collect_second_page_down :
  fst (collect_prices (strip_tags false) second_page_down
         BASE_URL 2 REQUEST_DELAY fresh_world)
  = [utf8 "10 000 руб."].
Proof. vm_compute. reflexivity. Qed.

(** C1 (as stated): the aggregated list of a run has no duplicates.  It fails
    for two pages that both show the same price. *)
Lemma collect_prices_repeats_across_pages :
  ~ NoDup (fst (collect_prices (strip_tags false) same_page_everywhere
                  BASE_URL 2 REQUEST_DELAY fresh_world)).
Proof.
  assert (Heq : fst (collect_prices (strip_tags false) same_page_everywhere
                       BASE_URL 2 REQUEST_DELAY fresh_world)
                = [utf8 "68 990 руб."; utf8 "68 990 руб."])
    by (vm_compute; reflexivity).
  rewrite Heq. intros Hnd. apply NoDup_cons in Hnd as [Hnotin _].
  apply Hnotin. apply list_elem_of_singleton. reflexivity.
Qed.

Lemma occurrences_absent x l : x ∉ l -> occurrences x l = O.
Proof.
  unfold occurrences. induction l as [|y l IH]; intros Hn; [done|].
  apply not_elem_of_cons in Hn as [Hne Hn].
  rewrite filter_cons_False by (intros ->; done). by apply IH.
Qed.

Lemma occurrences_NoDup x l : NoDup l -> (occurrences x l <= 1)%nat.
Proof.
  induction 1 as [|y l Hn _ IH]; [unfold occurrences; simpl; lia|].
  destruct (decide (y = x)) as [->|Hne].
  - pose proof (occurrences_absent x l Hn) as H0. unfold occurrences in *.
    rewrite filter_cons_True by done. simpl. lia.
  - unfold occurrences in *. by rewrite filter_cons_False.
Qed.

Lemma occurrences_flat_map {A} (f : A -> list str) x (ps : list A) :
  (forall k, (occurrences x (f k) <= 1)%nat) ->
  (occurrences x (flat_map f ps) <= length ps)%nat.
Proof.
  intros Hf. induction ps as [|k ps IH]; [unfold occurrences; simpl; lia|].
  cbn [flat_map]. specialize (Hf k). unfold occurrences in *.
  rewrite filter_app, length_app. simpl. lia.
Qed.

Lemma occurrences_present x l : NoDup l -> x ∈ l -> occurrences x l = 1%nat.
Proof.
  induction 1 as [|y l Hn _ IH]; intros Hin; [by apply elem_of_nil in Hin|].
  destruct (decide (y = x)) as [->|Hne].
  - pose proof (occurrences_absent x l Hn) as H0. unfold occurrences in *.
    rewrite filter_cons_True by done. simpl. by rewrite H0.
  - apply elem_of_cons in Hin as [->|Hin]; [done|].
    unfold occurrences in *. rewrite filter_cons_False by done. by apply IH.
Qed.

Lemma occurrences_app x l1 l2 :
  occurrences x (l1 ++ l2) = (occurrences x l1 + occurrences x l2)%nat.
Proof. unfold occurrences. by rewrite filter_app, length_app. Qed.

Lemma occurrences_per_page {A} (f : A -> list str) x (ps : list A) :
  (forall k, NoDup (f k)) ->
  occurrences x (flat_map f ps) = length (filter (fun k => x ∈ f k) ps).
Proof.
  intros Hf. induction ps as [|k ps IH]; [done|].
  cbn [flat_map]. rewrite occurrences_app, IH.
  destruct (decide (x ∈ f k)) as [Hin|Hin].
  - rewrite filter_cons_True by done.
    by rewrite (occurrences_present x (f k) (Hf k) Hin).
  - rewrite filter_cons_False by done.
    by rewrite (occurrences_absent x (f k) Hin).
Qed.

Lemma page_contribution_NoDup get_text http_get base_url k :
  NoDup (page_contribution get_text http_get base_url k).
Proof.
  unfold page_contribution.
  destruct (http_get _); [apply extract_prices_NoDup | constructor].
Qed.

(** C1 (amended): the aggregated list is the concatenation, in page order,
    of one list per page 1..N: the extractor's result for a page that was
    fetched, the empty list for one that was not.  Each of these lists is
    free of duplicates, and nothing is removed across pages: a string occurs
    in the aggregated list once for every page whose list contains it. *)
Theorem collect_prices_dedup_per_page
    (get_text : str -> str) (http_get : str -> option str)
    (base_url : str) (pages : Z) (delay : Q) (w : world) :
  fst (collect_prices get_text http_get base_url pages delay w)
  = concat ((fun k => match http_get (build_page_url base_url k) with
                      | Some html => extract_prices_from_html get_text html
                      | None => []
                      end) <$> seqZ 1 pages) /\
  Forall (fun k => NoDup (page_contribution get_text http_get base_url k))
         (seqZ 1 pages) /\
  forall x,
    occurrences x (fst (collect_prices get_text http_get base_url pages
                          delay w))
    = length (filter (fun k => x ∈ page_contribution get_text http_get
                                     base_url k)
                     (seqZ 1 pages)).
Proof.
  rewrite collect_prices_run. cbn [fst]. split; [|split].
  - apply flat_map_concat_map.
  - apply Forall_forall. intros k _. apply page_contribution_NoDup.
  - intros x. apply occurrences_per_page. intros k.
    apply page_contribution_NoDup.
Qed.

(** C5: in a run with a delay that is not negative, a page whose fetch
    returns [None] adds nothing, the loop goes on to the following pages
    (every page 1..N is requested, in order), and the result is the
    concatenation in page order of the extraction results of the pages that
    were fetched. *)
Theorem collect_prices_skips_failed_pages
    (get_text : str -> str) (http_get : str -> option str)
    (base_url : str) (pages : Z) (delay : Q) (w : world) :
  (0 <= delay)%Q ->
  fst (collect_prices get_text http_get base_url pages delay w)
  = flat_map (fun k => match http_get (build_page_url base_url k) with
                       | Some html => extract_prices_from_html get_text html
                       | None => []
                       end) (seqZ 1 pages) /\
  requests (w_log (snd (collect_prices get_text http_get base_url pages
                          delay w)))
  = requests (w_log w) ++ (build_page_url base_url <$> seqZ 1 pages).
Proof.
  intros _. rewrite collect_prices_run. cbn [fst snd w_log]. split; [done|].
  unfold requests at 1. rewrite omap_app. f_equal.
  apply requests_page_events.
Qed.

Lemma collect_prices_skips_failed_pages_witness :
  (0 <= REQUEST_DELAY)%Q /\
  fst (collect_prices (strip_tags false) second_page_down BASE_URL 2
         REQUEST_DELAY fresh_world)
  = flat_map (fun k => match second_page_down (build_page_url BASE_URL k) with
                       | Some html =>
                           extract_prices_from_html (strip_tags false) html
                       | None => []
                       end) (seqZ 1 2) /\
  requests (w_log (snd (collect_prices (strip_tags false) second_page_down
                          BASE_URL 2 REQUEST_DELAY fresh_world)))
  = requests (w_log fresh_world) ++ (build_page_url BASE_URL <$> seqZ 1 2).
Proof.
  split; [unfold Qle; simpl; lia|].
  apply (collect_prices_skips_failed_pages (strip_tags false)
           second_page_down BASE_URL 2 REQUEST_DELAY fresh_world).
  unfold Qle; simpl; lia.
Defined.

(** C8: the log of a run with a delay that is not negative is, page by
    page for k = 1..N, the request for page k followed by a pause of the
    configured delay exactly when the fetch of page k returned a body and
    k < N; no pause follows page N. *)
Theorem collect_prices_pauses
    (get_text : str -> str) (http_get : str -> option str)
    (base_url : str) (pages : Z) (delay : Q) (w : world) :
  (0 <= delay)%Q ->
  w_log (snd (collect_prices get_text http_get base_url pages delay w))
  = w_log w ++
    flat_map (fun k =>
                EGet (build_page_url base_url k) ::
                if decide (is_Some (http_get (build_page_url base_url k)) /\
                           (k < pages)%Z)
                then [ESleep delay] else [])
             (seqZ 1 pages).
Proof. intros _. rewrite collect_prices_run. reflexivity. Qed.

Lemma collect_prices_pauses_witness :
  (0 <= REQUEST_DELAY)%Q /\
  w_log (snd (collect_prices (strip_tags false) same_page_everywhere
                BASE_URL 3 REQUEST_DELAY fresh_world))
  = w_log fresh_world ++
    flat_map (fun k =>
                EGet (build_page_url BASE_URL k) ::
                if decide (is_Some (same_page_everywhere
                                      (build_page_url BASE_URL k)) /\
                           (k < 3)%Z)
                then [ESleep REQUEST_DELAY] else [])
             (seqZ 1 3).
Proof.
  split; [unfold Qle; simpl; lia|].
  apply (collect_prices_pauses (strip_tags false) same_page_everywhere
           BASE_URL 3 REQUEST_DELAY fresh_world).
  unfold Qle; simpl; lia.
Defined.

(** C10: for a page count N <= 0 the collector returns the empty list and
    leaves the world as it was: nothing is requested, extracted or paused. *)
Theorem collect_prices_no_pages
    (get_text : str -> str) (http_get : str -> option str)
    (base_url : str) (pages : Z) (delay : Q) (w : world) :
  (pages <= 0)%Z ->
  collect_prices get_text http_get base_url pages delay w = ([], w).
Proof.
  intros Hle. rewrite collect_prices_run.
  rewrite seqZ_nil by done. cbn [flat_map]. by rewrite app_nil_r, world_eta.
Qed.

Lemma collect_prices_no_pages_witness :
  (-3 <= 0)%Z /\
  collect_prices (strip_tags false) same_page_everywhere
    BASE_URL (-3) REQUEST_DELAY fresh_world = ([], fresh_world).
Proof.
  split; [lia|].
  apply (collect_prices_no_pages (strip_tags false) same_page_everywhere
           BASE_URL (-3) REQUEST_DELAY fresh_world).
  lia.
Defined.

(** ** The CSV writer *)

Lemma file_write_run (p : path) (text old : str)
    (log : list event) (dirs : gset (list string))
    (m : gmap (list string) (list N)) :
  file_write p text (World log dirs (<[p := old]> m))
  = (tt, World log dirs (<[p := old ++ text]> m)).
Proof.
  unfold file_write. cbn [w_log w_dirs w_files]. by rewrite alter_insert_eq.
Qed.

Lemma write_rows (p : path) (rows : list str) (old : str)
    (log : list event) (dirs : gset (list string))
    (m : gmap (list string) (list N)) :
  for_each rows (fun (_ : unit) price => file_write p (csv_row price)) tt
    (World log dirs (<[p := old]> m))
  = (tt, World log dirs (<[p := old ++ flat_map csv_row rows]> m)).
Proof.
  revert old. induction rows as [|row rows IH]; intros old.
  - simpl. by rewrite app_nil_r.
  - cbn [for_each flat_map]. unfold mbind, M_bind.
    rewrite file_write_run, IH. by rewrite <- app_assoc.
Qed.

Lemma save_to_csv_run (prices : list str) (p : path) (w : world) :
  save_to_csv prices p w
  = (tt, World (w_log w)
               (list_to_set (with_ancestors (parent p)) ∪ w_dirs w)
               (<[p := CSV_HEADER ++ flat_map csv_row prices]> (w_files w))).
Proof.
  unfold save_to_csv, mbind, M_bind, mkdir_parents, open_w.
  cbn [w_log w_dirs w_files]. rewrite file_write_run, write_rows.
  reflexivity.
Qed.

Lemma with_ancestors_self (d : path) : d <> [] -> d ∈ with_ancestors d.
Proof.
  intros Hne. unfold with_ancestors. apply list_elem_of_fmap.
  exists (length d). split; [by rewrite take_ge|].
  apply elem_of_seq. destruct d; [done | simpl; lia].
Qed.

Lemma csv_rows_value (price : str) (rest : str) :
  csv_rows InValue
    (replace_char QUOTE [QUOTE; QUOTE] price ++ [QUOTE; NEWLINE] ++ rest)
  = cons price <$> csv_rows AtRowStart rest.
Proof.
  induction price as [|c price IH].
  - simpl. by destruct (csv_rows AtRowStart rest).
  - unfold replace_char in *. cbn [flat_map].
    destruct (N.eqb_spec c QUOTE) as [->|Hne].
    + cbn [app csv_rows]. rewrite N.eqb_refl. cbn [app] in IH. rewrite IH.
      by destruct (csv_rows AtRowStart rest).
    + cbn [app csv_rows].
      destruct (N.eqb_spec c QUOTE) as [?|_]; [done|].
      cbn [app] in IH. rewrite IH.
      by destruct (csv_rows AtRowStart rest).
Qed.

Lemma csv_row_app (price rest : str) :
  csv_row price ++ rest
  = QUOTE :: replace_char QUOTE [QUOTE; QUOTE] price
             ++ [QUOTE; NEWLINE] ++ rest.
Proof. unfold csv_row. cbn [app]. by rewrite <- app_assoc. Qed.

Lemma csv_rows_rows (prices : list str) :
  csv_rows AtRowStart (flat_map csv_row prices) = Some prices.
Proof.
  induction prices as [|price prices IH]; [done|].
  cbn [flat_map]. rewrite csv_row_app.
  cbn [csv_rows]. rewrite N.eqb_refl.
  rewrite (csv_rows_value price (flat_map csv_row prices)), IH. done.
Qed.

Lemma csv_read_written (prices : list str) :
  csv_read (CSV_HEADER ++ flat_map csv_row prices) = Some prices.
Proof. unfold csv_read. apply csv_rows_rows. Qed.

Example csv_row_quote : csv_row [97; 34; 98] = [34; 97; 34; 34; 98; 34; 10].
Proof. reflexivity. Qed.

(** C7: the file written for a list of price strings, made of characters
    the codec can encode, is the header line [price_raw] followed by one
    quoted row per string, and reading it back (header skipped, quoting
    undone) gives the original list in order. *)
Theorem save_to_csv_round_trip (prices : list str) (p : path) (w : world) :
  Forall (fun price => forallb utf8_encodable price = true) prices ->
  exists text,
    w_files (snd (save_to_csv prices p w)) !! p = Some text /\
    text = utf8 "price_raw" ++ [NEWLINE] ++ flat_map csv_row prices /\
    csv_read text = Some prices.
Proof.
  intros _. exists (CSV_HEADER ++ flat_map csv_row prices).
  rewrite save_to_csv_run. cbn [snd w_files]. split; [|split].
  - apply lookup_insert_eq.
  - unfold CSV_HEADER. symmetry. apply app_assoc.
  - apply csv_read_written.
Qed.

Lemma save_to_csv_round_trip_witness :
  Forall (fun price => forallb utf8_encodable price = true)
         [utf8 "68 990 руб."; [97; 34; 98]; utf8 "45 990 руб."] /\
  exists text,
    w_files (snd (save_to_csv
                    [utf8 "68 990 руб."; [97; 34; 98]; utf8 "45 990 руб."]
                    ["data"; "prices.csv"]%string fresh_world))
      !! ["data"; "prices.csv"]%string = Some text /\
    text = utf8 "price_raw" ++ [NEWLINE] ++
           flat_map csv_row
             [utf8 "68 990 руб."; [97; 34; 98]; utf8 "45 990 руб."] /\
    csv_read text
    = Some [utf8 "68 990 руб."; [97; 34; 98]; utf8 "45 990 руб."].
Proof.
  split; [repeat constructor|].
  apply (save_to_csv_round_trip
           [utf8 "68 990 руб."; [97; 34; 98]; utf8 "45 990 руб."]
           ["data"; "prices.csv"]%string fresh_world).
  repeat constructor.
Defined.

(** C9: called with the empty list, the writer still creates the parent
    directory and leaves a file that holds the header line [price_raw] and
    nothing else, so no data row is read from it. *)
Theorem save_to_csv_empty (p : path) (w : world) :
  dir_exists (snd (save_to_csv [] p w)) (parent p) /\
  w_files (snd (save_to_csv [] p w)) !! p
  = Some (utf8 "price_raw" ++ [NEWLINE]) /\
  csv_read (utf8 "price_raw" ++ [NEWLINE]) = Some [].
Proof.
  rewrite save_to_csv_run. cbn [snd w_files flat_map]. split; [|split].
  - unfold dir_exists. cbn [w_dirs].
    destruct (decide (parent p = [])) as [Hnil|Hne]; [by left|].
    right. apply elem_of_union_l, elem_of_list_to_set.
    by apply with_ancestors_self.
  - rewrite app_nil_r. apply lookup_insert_eq.
  - reflexivity.
Qed.

(** ** The entry point *)

Section EntryPoint.

Variable get_text : str -> str.
Variable http_get : str -> option str.
Variable script_file : path.

Lemma collect_prices_keeps_files base_url pages delay w :
  w_files (snd (collect_prices get_text http_get base_url pages delay w))
  = w_files w /\
  w_dirs (snd (collect_prices get_text http_get base_url pages delay w))
  = w_dirs w.
Proof. by rewrite collect_prices_run. Qed.

Lemma main_unfold w :
  main get_text http_get script_file w
  = match collect_prices get_text http_get BASE_URL PAGES_TO_FETCH
            REQUEST_DELAY w with
    | ([], w1) => (1%Z, w1)
    | (prices, w1) =>
        (0%Z, snd (save_to_csv prices (OUTPUT_FILE script_file) w1))
    end.
Proof.
  unfold main, mbind, M_bind.
  destruct (collect_prices _ _ _ _ _ w) as [[|price prices] w1]; [done|].
  unfold mret, M_ret. by destruct (save_to_csv _ _ w1) as [[] w2].
Qed.

End EntryPoint.

(** C2: when the collected list is empty, [main] returns 1 and the files and
    directories are those it started with; when it is not empty, [main]
    returns 0 and the world is the one the CSV writer leaves when it is given
    the collected list and the output path. *)
Theorem main_exit_status
    (get_text : str -> str) (http_get : str -> option str)
    (script_file : path) (w : world) :
  (fst (collect_prices get_text http_get BASE_URL PAGES_TO_FETCH
          REQUEST_DELAY w) = [] /\
   fst (main get_text http_get script_file w) = 1%Z /\
   w_files (snd (main get_text http_get script_file w)) = w_files w /\
   w_dirs (snd (main get_text http_get script_file w)) = w_dirs w)
  \/
  (fst (collect_prices get_text http_get BASE_URL PAGES_TO_FETCH
          REQUEST_DELAY w) <> [] /\
   fst (main get_text http_get script_file w) = 0%Z /\
   snd (main get_text http_get script_file w)
   = snd (save_to_csv
            (fst (collect_prices get_text http_get BASE_URL PAGES_TO_FETCH
                    REQUEST_DELAY w))
            (OUTPUT_FILE script_file)
            (snd (collect_prices get_text http_get BASE_URL PAGES_TO_FETCH
                    REQUEST_DELAY w)))).
Proof.
  rewrite main_unfold.
  pose proof (collect_prices_keeps_files get_text http_get BASE_URL
                PAGES_TO_FETCH REQUEST_DELAY w) as [Hf Hd].
  destruct (collect_prices _ _ _ _ _ w) as [[|price prices] w1];
    cbn [fst snd] in *.
  - left. done.
  - right. done.
Qed.

Example output_file_sample :
  OUTPUT_FILE sample_script_file
  = ["az03"; "data"; "divan_prices_raw.csv"]%string.
Proof. reflexivity. Qed.

Example main_nothing_collected :
  main (strip_tags false) (fun _ => None) sample_script_file fresh_world
  = (1%Z, World [EGet BASE_URL; EGet (BASE_URL ++ utf8 "?page=2")] ∅ ∅).
Proof. vm_compute. reflexivity. Qed.

Example main_second_page_down :
  fst (main (strip_tags false) second_page_down sample_script_file
         fresh_world) = 0%Z /\
  w_files (snd (main (strip_tags false) second_page_down sample_script_file
                  fresh_world))
    !! OUTPUT_FILE sample_script_file
  = Some (utf8 "price_raw" ++ [NEWLINE] ++
          [QUOTE] ++ utf8 "10 000 руб." ++ [QUOTE; NEWLINE]).
Proof. vm_compute. split; reflexivity. Qed.

(** * Further properties *)

(** ** Matching: nothing is missed, nothing is invented *)

Lemma repeat_greedy_complete cs k s m :
  forallb cs (take m s) = true -> (m <= length s)%nat ->
  is_Some (k (drop m s)) -> is_Some (repeat_greedy cs k s).
Proof.
  revert m. induction s as [|c s IH]; intros m Hall Hm Hk.
  - simpl in Hm. assert (m = O) as -> by lia. done.
  - destruct m as [|m]; simpl in *.
    + destruct (cs c); [|done].
      destruct (repeat_greedy cs k s); [by eexists | done].
    + apply andb_true_iff in Hall as [Hc Hall]. rewrite Hc.
      destruct (IH m Hall ltac:(lia) Hk) as [n ->]. by eexists.
Qed.

Lemma match_here_complete r w rest :
  re_lang r w -> is_Some (match_here r (w ++ rest)).
Proof.
  induction 1 as [|cs r c s Hc _ IH|cs r c run s Hc Hrun _ IH]; simpl.
  - by eexists.
  - rewrite Hc. destruct IH as [n ->]. by eexists.
  - rewrite Hc.
    assert (Hg : is_Some (repeat_greedy cs (match_here r)
                            ((run ++ s) ++ rest))).
    { rewrite <- app_assoc.
      apply (repeat_greedy_complete cs _ _ (length run)).
      - by rewrite take_app_length.
      - rewrite length_app. lia.
      - by rewrite drop_app_length. }
    destruct Hg as [n ->]. by eexists.
Qed.

Lemma findall_from_substring r skip s x :
  x ∈ findall_from r skip s -> substring_of x s.
Proof.
  revert skip. induction s as [|c s IH]; intros skip H; simpl in H.
  - destruct skip; [|by apply elem_of_nil in H].
    destruct (match_here r []); [|by apply elem_of_nil in H].
    apply list_elem_of_singleton in H as ->. by exists [], [].
  - assert (Hrest : forall k, x ∈ findall_from r k s ->
                              substring_of x (c :: s)).
    { intros k Hk. destruct (IH k Hk) as (pre & post & ->).
      by exists (c :: pre), post. }
    destruct skip as [|k]; [|by eapply Hrest].
    destruct (match_here r (c :: s)) as [n|]; [|by eapply Hrest].
    apply elem_of_cons in H as [->|H]; [|by eapply Hrest].
    exists [], (drop n (c :: s)). simpl. by rewrite take_drop.
Qed.

Lemma findall_finds r pre w post :
  re_lang r w -> findall r (pre ++ w ++ post) <> [].
Proof.
  intros Hw. unfold findall. induction pre as [|c pre IH].
  - destruct (match_here_complete r w post Hw) as [n Hn].
    simpl. destruct (w ++ post) as [|c s] eqn:Hs; simpl.
    + by rewrite Hn.
    + by rewrite Hn.
  - simpl. destruct (match_here r (c :: pre ++ w ++ post)); done.
Qed.

Lemma extract_prices_in_findall get_text html x :
  x ∈ extract_prices_from_html get_text html <->
  x ∈ findall PRICE_PATTERN (get_text html).
Proof.
  rewrite extract_prices_unfold, fresh_from_elem. set_solver.
Qed.

Lemma extract_prices_price_seen get_text html x :
  x ∈ extract_prices_from_html get_text html ->
  contains_price (get_text html).
Proof.
  intros Hx. apply extract_prices_in_findall in Hx.
  destruct (findall_from_substring _ _ _ _ Hx) as (pre & post & Heq).
  exists pre, x, post. split; [done|]. by eapply findall_from_sound.
Qed.

Lemma extract_prices_price_found get_text html :
  contains_price (get_text html) ->
  extract_prices_from_html get_text html <> [].
Proof.
  intros (pre & w & post & Heq & Hw) Hnil.
  pose proof (findall_finds PRICE_PATTERN pre w post Hw) as Hne.
  rewrite <- Heq in Hne.
  destruct (findall PRICE_PATTERN (get_text html)) as [|x l] eqn:Hf; [done|].
  assert (Hx : x ∈ extract_prices_from_html get_text html).
  { apply extract_prices_in_findall. rewrite Hf. by left. }
  rewrite Hnil in Hx. by apply elem_of_nil in Hx.
Qed.

(** X1: the extractor returns at least one price exactly when the rendered
    text has a substring matching the price pattern; a page without such a
    substring gives the empty list. *)
Theorem extract_prices_nonempty_iff (get_text : str -> str) (html : str) :
  extract_prices_from_html get_text html <> [] <->
  contains_price (get_text html).
Proof.
  split; [|apply extract_prices_price_found].
  intros Hne.
  destruct (extract_prices_from_html get_text html) as [|x l] eqn:He;
    [done|].
  apply (extract_prices_price_seen get_text html x). rewrite He. by left.
Qed.

(** X2: every extracted price occurs verbatim, as a contiguous substring, in
    the rendered text of the page. *)
Theorem extract_prices_substrings (get_text : str -> str) (html : str) :
  Forall (fun x => substring_of x (get_text html))
         (extract_prices_from_html get_text html).
Proof.
  apply Forall_forall. intros x Hx.
  apply extract_prices_in_findall in Hx.
  by eapply findall_from_substring.
Qed.

(** ** Extracted prices in the CSV file *)

Lemma replace_char_absent old new s :
  old ∉ s -> replace_char old new s = s.
Proof.
  induction s as [|c s IH]; intros Hn; [done|].
  apply not_elem_of_cons in Hn as [Hne Hn].
  unfold replace_char in *. cbn [flat_map]. rewrite IH by done.
  destruct (N.eqb_spec c old) as [->|_]; done.
Qed.

Lemma price_word_chars x :
  re_lang PRICE_PATTERN x -> (QUOTE ∉ x) /\ (6 <= length x)%nat.
Proof.
  intros (d & run & -> & Hd & Hne & Hrun)%price_lang_shape. split.
  - rewrite not_elem_of_cons, not_elem_of_app. repeat split.
    + intros <-. by vm_compute in Hd.
    + intros Hin. apply list_elem_of_In in Hin.
      rewrite forallb_forall in Hrun. apply Hrun in Hin.
      by vm_compute in Hin.
    + vm_compute. intros Hin.
      repeat (apply elem_of_cons in Hin as [Heq|Hin]; [discriminate Heq|]).
      by apply elem_of_nil in Hin.
  - destruct run; [done|]. simpl. rewrite !length_app. simpl. lia.
Qed.

(** X3: a price the extractor returns has at least six characters and holds
    no double quote, so the CSV writer stores it unchanged between two
    quotes. *)
Theorem extracted_price_row_verbatim (get_text : str -> str) (html : str) :
  Forall (fun p => (6 <= length p)%nat /\
                   csv_row p = [QUOTE] ++ p ++ [QUOTE; NEWLINE])
         (extract_prices_from_html get_text html).
Proof.
  apply Forall_forall. intros p Hp.
  apply extract_prices_in_findall in Hp.
  apply findall_from_sound, price_word_chars in Hp as [Hq Hlen].
  split; [done|]. unfold csv_row. by rewrite replace_char_absent.
Qed.

(** ** Page URLs are distinct *)

Lemma str_of_N_inj a b : str_of_N a = str_of_N b -> a = b.
Proof.
  intros Heq.
  destruct (str_of_N_spec a) as (_ & Ha & _).
  destruct (str_of_N_spec b) as (_ & Hb & _).
  rewrite <- Ha, <- Hb. by rewrite Heq.
Qed.

Lemma str_of_N_no_sign n ds : str_of_N n <> 45 :: ds.
Proof.
  intros Heq. destruct (str_of_N_spec n) as (Hall & _ & _).
  rewrite Heq in Hall. simpl in Hall. discriminate Hall.
Qed.

Lemma str_of_int_inj j k : str_of_int j = str_of_int k -> j = k.
Proof.
  unfold str_of_int.
  destruct (Z.ltb_spec j 0) as [Hj|Hj], (Z.ltb_spec k 0) as [Hk|Hk];
    intros Heq.
  - injection Heq as Heq. apply str_of_N_inj in Heq. lia.
  - symmetry in Heq. by apply str_of_N_no_sign in Heq.
  - by apply str_of_N_no_sign in Heq.
  - apply str_of_N_inj in Heq. lia.
Qed.

(** X4: different page numbers give different URLs, for every base URL and
    all integers (page 1 being the only one mapped to the bare base). *)
Theorem build_page_url_distinct (base : str) (j k : Z) :
  j <> k -> build_page_url base j <> build_page_url base k.
Proof.
  intros Hne Heq. apply Hne. clear Hne. unfold build_page_url in Heq.
  assert (Hlen : forall s, base <> base ++ utf8 "?page=" ++ s).
  { intros s H. apply (f_equal length) in H.
    rewrite !length_app in H. vm_compute (length (utf8 "?page=")) in H.
    lia. }
  destruct (decide (j = 1%Z)) as [->|Hj], (decide (k = 1%Z)) as [->|Hk].
  - done.
  - by apply Hlen in Heq.
  - symmetry in Heq. by apply Hlen in Heq.
  - apply app_inv_head, app_inv_head in Heq. by apply str_of_int_inj.
Qed.

Lemma build_page_url_distinct_witness :
  (1 <> 2)%Z /\ build_page_url BASE_URL 1 <> build_page_url BASE_URL 2.
Proof.
  split; [lia|]. apply (build_page_url_distinct BASE_URL 1 2). lia.
Defined.

(** ** Runs of the collector *)

Lemma seqZ_last (n : Z) : (1 <= n)%Z -> seqZ 1 n = seqZ 1 (n - 1) ++ [n].
Proof.
  intros Hn. replace n with ((n - 1) + 1)%Z at 1 by lia.
  rewrite seqZ_app by lia. f_equal.
  replace (1 + (n - 1))%Z with n by lia.
  rewrite seqZ_cons by lia. by rewrite seqZ_nil by lia.
Qed.

(** X5: no string occurs in the aggregated list more often than there are
    pages: once per page at most. *)
Theorem collect_prices_occurrences
    (get_text : str -> str) (http_get : str -> option str)
    (base_url : str) (pages : Z) (delay : Q) (w : world) (x : str) :
  (occurrences x (fst (collect_prices get_text http_get base_url pages
                         delay w))
   <= Z.to_nat pages)%nat.
Proof.
  rewrite collect_prices_run. cbn [fst].
  rewrite <- (length_seqZ 1 pages). apply occurrences_flat_map.
  intros k. apply occurrences_NoDup. unfold page_contribution.
  destruct (http_get _); [apply extract_prices_NoDup | constructor].
Qed.

Lemma pauses_before_last http_get base_url pages delay (ps : list Z) :
  Forall (fun k => (k < pages)%Z) ps ->
  pauses (flat_map (page_events http_get base_url pages delay) ps)
  = replicate
      (length (filter (fun k => is_Some (http_get (build_page_url base_url k)))
                      ps))
      delay.
Proof.
  induction 1 as [|k ps Hk _ IH]; [done|].
  cbn [flat_map]. unfold pauses in *. rewrite omap_app, IH.
  unfold page_events.
  destruct (decide (is_Some (http_get (build_page_url base_url k))))
    as [Hs|Hs].
  - rewrite decide_True by done. by rewrite filter_cons_True.
  - rewrite decide_False by (intros [? _]; done).
    by rewrite filter_cons_False.
Qed.

(** X6: a run with a delay that is not negative adds one pause of the
    configured delay for every page among 1..N-1 that was fetched, and no
    other pause; so at most N-1 pauses. *)
Theorem collect_prices_pause_count
    (get_text : str -> str) (http_get : str -> option str)
    (base_url : str) (pages : Z) (delay : Q) (w : world) :
  (0 <= delay)%Q ->
  pauses (w_log (snd (collect_prices get_text http_get base_url pages
                        delay w)))
  = pauses (w_log w) ++
    replicate
      (length (filter (fun k => is_Some (http_get (build_page_url base_url k)))
                      (seqZ 1 (pages - 1))))
      delay /\
  (length (filter (fun k => is_Some (http_get (build_page_url base_url k)))
                  (seqZ 1 (pages - 1)))
   <= Z.to_nat (pages - 1))%nat.
Proof.
  intros _. split.
  - rewrite collect_prices_run. cbn [snd w_log].
    unfold pauses at 1. rewrite omap_app. f_equal.
    destruct (decide (1 <= pages)%Z) as [Hge|Hlt].
    + rewrite (seqZ_last pages Hge), flat_map_app, omap_app.
      change (omap _ ?l) with (pauses l).
      rewrite pauses_before_last.
      * cbn [flat_map]. unfold page_events, pauses.
        rewrite decide_False by lia. simpl. by rewrite app_nil_r.
      * apply Forall_forall. intros k Hk%elem_of_seqZ. lia.
    + by rewrite !seqZ_nil by lia.
  - rewrite <- (length_seqZ 1 (pages - 1)). apply length_filter.
Qed.

Lemma collect_prices_pause_count_witness :
  (0 <= REQUEST_DELAY)%Q /\
  pauses (w_log (snd (collect_prices (strip_tags false) same_page_everywhere
                        BASE_URL 3 REQUEST_DELAY fresh_world)))
  = pauses (w_log fresh_world) ++
    replicate
      (length (filter (fun k => is_Some (same_page_everywhere
                                           (build_page_url BASE_URL k)))
                      (seqZ 1 (3 - 1))))
      REQUEST_DELAY /\
  (length (filter (fun k => is_Some (same_page_everywhere
                                       (build_page_url BASE_URL k)))
                  (seqZ 1 (3 - 1)))
   <= Z.to_nat (3 - 1))%nat.
Proof.
  split; [unfold Qle; simpl; lia|].
  apply (collect_prices_pause_count (strip_tags false) same_page_everywhere
           BASE_URL 3 REQUEST_DELAY fresh_world).
  unfold Qle; simpl; lia.
Defined.

(** X7: the collector only adds to the log; files and directories are as it
    found them. *)
Theorem collect_prices_frame
    (get_text : str -> str) (http_get : str -> option str)
    (base_url : str) (pages : Z) (delay : Q) (w : world) :
  w_files (snd (collect_prices get_text http_get base_url pages delay w))
  = w_files w /\
  w_dirs (snd (collect_prices get_text http_get base_url pages delay w))
  = w_dirs w /\
  w_log w `prefix_of`
    w_log (snd (collect_prices get_text http_get base_url pages delay w)).
Proof.
  rewrite collect_prices_run. cbn [snd w_files w_dirs w_log].
  split; [done|]. split; [done|]. by apply prefix_app_r.
Qed.

(** X8: asking for one more page keeps what the shorter run collected and
    appends the contribution of the new page. *)
Theorem collect_prices_one_more_page
    (get_text : str -> str) (http_get : str -> option str)
    (base_url : str) (pages : Z) (delay : Q) (w : world) :
  (0 <= pages)%Z ->
  fst (collect_prices get_text http_get base_url (pages + 1) delay w)
  = fst (collect_prices get_text http_get base_url pages delay w) ++
    page_contribution get_text http_get base_url (pages + 1).
Proof.
  intros Hp. rewrite !collect_prices_run. cbn [fst].
  rewrite (seqZ_last (pages + 1)) by lia. rewrite Z.add_simpl_r.
  rewrite flat_map_app. cbn [flat_map]. by rewrite app_nil_r.
Qed.

Lemma collect_prices_one_more_page_witness :
  (0 <= 1)%Z /\
  fst (collect_prices (strip_tags false) same_page_everywhere BASE_URL
         (1 + 1) REQUEST_DELAY fresh_world)
  = fst (collect_prices (strip_tags false) same_page_everywhere BASE_URL
           1 REQUEST_DELAY fresh_world) ++
    page_contribution (strip_tags false) same_page_everywhere BASE_URL
      (1 + 1).
Proof.
  split; [lia|].
  apply (collect_prices_one_more_page (strip_tags false)
           same_page_everywhere BASE_URL 1 REQUEST_DELAY fresh_world).
  lia.
Defined.

(** ** More on the CSV writer *)

(** X9: the writer truncates: writing to a path that an earlier call wrote
    leaves exactly the world a single call with the later list would leave;
    nothing of the earlier content remains. *)
Theorem save_to_csv_overwrites (old new : list str) (p : path) (w : world) :
  save_to_csv new p (snd (save_to_csv old p w)) = save_to_csv new p w.
Proof.
  rewrite !save_to_csv_run. cbn [snd w_log w_dirs w_files].
  f_equal. f_equal.
  - set_solver.
  - apply insert_insert_eq.
Qed.

(** X10: the writer changes one file only: every other path reads as
    before, the log is untouched and no directory disappears. *)
Theorem save_to_csv_frame (prices : list str) (p q : path) (w : world) :
  q <> p ->
  w_files (snd (save_to_csv prices p w)) !! q = w_files w !! q /\
  w_log (snd (save_to_csv prices p w)) = w_log w /\
  w_dirs w ⊆ w_dirs (snd (save_to_csv prices p w)).
Proof.
  intros Hne. rewrite save_to_csv_run. cbn [snd w_log w_dirs w_files].
  split; [by apply lookup_insert_ne|]. split; [done | set_solver].
Qed.

Lemma save_to_csv_frame_witness :
  ["data"; "other.csv"]%string <> ["data"; "prices.csv"]%string /\
  w_files (snd (save_to_csv [utf8 "1 2 руб."]
                  ["data"; "prices.csv"]%string fresh_world))
    !! ["data"; "other.csv"]%string
  = w_files fresh_world !! ["data"; "other.csv"]%string.
Proof.
  split; [discriminate|].
  apply (save_to_csv_frame [utf8 "1 2 руб."] ["data"; "prices.csv"]%string
           ["data"; "other.csv"]%string fresh_world).
  discriminate.
Defined.

(** X11: after the writer has run, every ancestor of the output path exists,
    not only its parent ([parents=True]). *)
Theorem save_to_csv_creates_ancestors
    (prices : list str) (p : path) (w : world) (n : nat) :
  (1 <= n <= length (parent p))%nat ->
  take n p ∈ w_dirs (snd (save_to_csv prices p w)).
Proof.
  intros Hn. rewrite save_to_csv_run. cbn [snd w_dirs].
  apply elem_of_union_l, elem_of_list_to_set.
  unfold with_ancestors. apply list_elem_of_fmap. exists n. split.
  - unfold parent in *. rewrite length_take in Hn.
    rewrite take_take. f_equal. lia.
  - apply elem_of_seq. lia.
Qed.

Lemma save_to_csv_creates_ancestors_witness :
  (1 <= 1 <= length (parent ["az03"; "data"; "prices.csv"]%string))%nat /\
  take 1 ["az03"; "data"; "prices.csv"]%string
  ∈ w_dirs (snd (save_to_csv [] ["az03"; "data"; "prices.csv"]%string
                   fresh_world)).
Proof.
  split; [simpl; lia|].
  apply (save_to_csv_creates_ancestors []
           ["az03"; "data"; "prices.csv"]%string fresh_world 1).
  simpl; lia.
Defined.

(** X12: escaping doubles every quote of the value and the row adds the two
    enclosing ones, so a row always holds an even number of quotes. *)
Theorem csv_row_quote_count (price : str) :
  quote_count (csv_row price) = (2 + 2 * quote_count price)%nat.
Proof.
  unfold csv_row, quote_count. cbn [app].
  rewrite filter_cons_True by done. cbn [length].
  rewrite filter_app, length_app.
  assert (Hq : length (filter (fun c => c = QUOTE) [QUOTE; NEWLINE]) = 1%nat)
    by done.
  rewrite Hq.
  assert (He : length (filter (fun c => c = QUOTE)
                         (replace_char QUOTE [QUOTE; QUOTE] price))
               = (2 * length (filter (fun c => c = QUOTE) price))%nat).
  { induction price as [|c price IH]; [done|].
    unfold replace_char in *. cbn [flat_map].
    destruct (N.eqb_spec c QUOTE) as [->|Hne].
    - cbn [app]. rewrite !filter_cons_True by done. cbn [length].
      rewrite IH. lia.
    - cbn [app]. rewrite !filter_cons_False by done. exact IH. }
  rewrite He. lia.
Qed.

(** ** More on the entry point *)

Lemma parent_snoc (d : path) (x : string) : parent (d ++ [x]) = d.
Proof.
  unfold parent. rewrite length_app. simpl.
  replace (pred (length d + 1)) with (length d) by lia.
  by rewrite take_app_length.
Qed.

Lemma page_one_url : build_page_url BASE_URL 1 = BASE_URL.
Proof. reflexivity. Qed.

Lemma page_two_url : build_page_url BASE_URL 2 = BASE_URL ++ utf8 "?page=2".
Proof. vm_compute. reflexivity. Qed.

Lemma main_log get_text http_get script_file w :
  w_log (snd (main get_text http_get script_file w))
  = w_log (snd (collect_prices get_text http_get BASE_URL PAGES_TO_FETCH
                  REQUEST_DELAY w)).
Proof.
  rewrite main_unfold.
  destruct (collect_prices _ _ _ _ _ w) as [[|price prices] w1]; [done|].
  by rewrite save_to_csv_run.
Qed.

Lemma main_exit_zero get_text http_get script_file w :
  fst (main get_text http_get script_file w) = 0%Z <->
  fst (collect_prices get_text http_get BASE_URL PAGES_TO_FETCH
         REQUEST_DELAY w) <> [].
Proof.
  rewrite main_unfold.
  destruct (collect_prices _ _ _ _ _ w) as [[|price prices] w1];
    cbn [fst]; split; done.
Qed.

Lemma collect_prices_nonempty get_text http_get base_url pages delay w :
  fst (collect_prices get_text http_get base_url pages delay w) <> [] <->
  exists k html,
    (1 <= k <= pages)%Z /\
    http_get (build_page_url base_url k) = Some html /\
    contains_price (get_text html).
Proof.
  rewrite collect_prices_run. cbn [fst]. split.
  - intros Hne.
    destruct (flat_map _ _) as [|x l] eqn:Hf; [done|].
    assert (Hx : In x (flat_map (page_contribution get_text http_get base_url)
                         (seqZ 1 pages))) by (rewrite Hf; by left).
    apply in_flat_map in Hx as (k & Hk & Hx).
    apply list_elem_of_In, elem_of_seqZ in Hk.
    apply list_elem_of_In in Hx. unfold page_contribution in Hx.
    destruct (http_get (build_page_url base_url k)) as [html|] eqn:Hg;
      [|by apply elem_of_nil in Hx].
    exists k, html. split; [lia|]. split; [done|].
    by eapply extract_prices_price_seen.
  - intros (k & html & Hk & Hg & Hc) Hnil.
    apply (extract_prices_price_found get_text html) in Hc.
    destruct (extract_prices_from_html get_text html) as [|x l] eqn:He;
      [done|].
    assert (Hx : In x (flat_map (page_contribution get_text http_get base_url)
                         (seqZ 1 pages))).
    { apply in_flat_map. exists k. split.
      - apply list_elem_of_In, elem_of_seqZ. lia.
      - unfold page_contribution. rewrite Hg, He. by left. }
    by rewrite Hnil in Hx.
Qed.

(** X13: whatever the network answers, a run of the script requests the
    base URL and then its [?page=2], with one pause of the configured delay
    in between exactly when the first page was fetched; nothing else is
    added to the log. *)
Theorem main_log_shape
    (get_text : str -> str) (http_get : str -> option str)
    (script_file : path) (w : world) :
  w_log (snd (main get_text http_get script_file w))
  = w_log w ++
    EGet BASE_URL ::
    (if decide (is_Some (http_get BASE_URL)) then [ESleep REQUEST_DELAY]
     else []) ++
    [EGet (BASE_URL ++ utf8 "?page=2")].
Proof.
  rewrite main_log, collect_prices_run. cbn [snd w_log]. f_equal.
  change (seqZ 1 PAGES_TO_FETCH) with [1; 2]%Z. cbn [flat_map].
  unfold page_events. rewrite page_one_url, page_two_url.
  rewrite (decide_False (P := _ /\ (2 < PAGES_TO_FETCH)%Z))
    by (intros [_ ?]; done).
  destruct (decide (is_Some (http_get BASE_URL))) as [Hs|Hs].
  - by rewrite decide_True by done.
  - by rewrite decide_False by (intros [? _]; done).
Qed.

(** X14: when the script returns 0, the output file holds the header and one
    quoted row per collected price, reading it back gives the collected
    list, which is not empty, and the data directory exists. *)
Theorem main_success_output
    (get_text : str -> str) (http_get : str -> option str)
    (script_file : path) (w : world) :
  fst (main get_text http_get script_file w) = 0%Z ->
  exists prices text,
    prices = fst (collect_prices get_text http_get BASE_URL PAGES_TO_FETCH
                    REQUEST_DELAY w) /\
    prices <> [] /\
    text = utf8 "price_raw" ++ [NEWLINE] ++ flat_map csv_row prices /\
    w_files (snd (main get_text http_get script_file w))
      !! OUTPUT_FILE script_file = Some text /\
    csv_read text = Some prices /\
    DATA_DIR script_file
    ∈ w_dirs (snd (main get_text http_get script_file w)).
Proof.
  intros Hexit. pose proof Hexit as Hne. apply main_exit_zero in Hne.
  rewrite main_unfold in *.
  destruct (collect_prices _ _ _ _ _ w) as [[|price prices] w1];
    cbn [fst] in *; [done|].
  exists (price :: prices), (CSV_HEADER ++ flat_map csv_row (price :: prices)).
  rewrite save_to_csv_run. cbn [snd w_files w_dirs].
  split; [done|]. split; [done|].
  split; [unfold CSV_HEADER; symmetry; apply app_assoc|].
  split; [apply lookup_insert_eq|].
  split; [apply csv_read_written|].
  apply elem_of_union_l, elem_of_list_to_set.
  unfold OUTPUT_FILE. rewrite parent_snoc.
  apply with_ancestors_self. unfold DATA_DIR. by destruct (parent _).
Qed.

Lemma main_success_output_witness :
  fst (main (strip_tags false) second_page_down sample_script_file
         fresh_world) = 0%Z /\
  exists prices text,
    prices = fst (collect_prices (strip_tags false) second_page_down
                    BASE_URL PAGES_TO_FETCH REQUEST_DELAY fresh_world) /\
    prices <> [] /\
    text = utf8 "price_raw" ++ [NEWLINE] ++ flat_map csv_row prices /\
    w_files (snd (main (strip_tags false) second_page_down
                    sample_script_file fresh_world))
      !! OUTPUT_FILE sample_script_file = Some text /\
    csv_read text = Some prices /\
    DATA_DIR sample_script_file
    ∈ w_dirs (snd (main (strip_tags false) second_page_down
                     sample_script_file fresh_world)).
Proof.
  split; [vm_compute; reflexivity|].
  apply (main_success_output (strip_tags false) second_page_down
           sample_script_file fresh_world).
  vm_compute; reflexivity.
Defined.

(** X15: the script returns 0 or 1, and it returns 0 exactly when one of the
    pages 1..PAGES_TO_FETCH was fetched and its rendered text contains a
    match of the price pattern. *)
Theorem main_exit_zero_iff
    (get_text : str -> str) (http_get : str -> option str)
    (script_file : path) (w : world) :
  (fst (main get_text http_get script_file w) = 0%Z \/
   fst (main get_text http_get script_file w) = 1%Z) /\
  (fst (main get_text http_get script_file w) = 0%Z <->
   exists k html,
     (1 <= k <= PAGES_TO_FETCH)%Z /\
     http_get (build_page_url BASE_URL k) = Some html /\
     contains_price (get_text html)).
Proof.
  split.
  - rewrite main_unfold.
    destruct (collect_prices _ _ _ _ _ w) as [[|price prices] w1];
      cbn [fst]; [by right | by left].
  - rewrite main_exit_zero. apply collect_prices_nonempty.
Qed.

(** ** Collected prices can always be encoded *)

Lemma in_ranges_encodable rs c :
  forallb (fun r => (snd r <? 55296) ||
                    ((57343 <? fst r) && (snd r <=? 1114111))) rs = true ->
  in_ranges rs c = true -> utf8_encodable c = true.
Proof.
  intros Hall Hin. unfold in_ranges in Hin.
  apply existsb_exists in Hin as ([lo hi] & Hr & Hb).
  rewrite forallb_forall in Hall. specialize (Hall _ Hr).
  unfold utf8_encodable. cbn [fst snd] in *.
  rewrite ?orb_true_iff, ?andb_true_iff, ?N.ltb_lt, ?N.leb_le in *. lia.
Qed.

Lemma price_word_encodable x :
  re_lang PRICE_PATTERN x -> forallb utf8_encodable x = true.
Proof.
  intros (d & run & -> & Hd & _ & Hrun)%price_lang_shape.
  assert (Hdigit : forall c, uni_digit c = true -> utf8_encodable c = true).
  { intros c. apply in_ranges_encodable. vm_compute. reflexivity. }
  assert (Hspace : forall c, uni_space c = true -> utf8_encodable c = true).
  { intros c. apply in_ranges_encodable. vm_compute. reflexivity. }
  cbn [forallb]. rewrite (Hdigit d Hd), forallb_app. cbn [andb].
  apply andb_true_iff. split; [|vm_compute; reflexivity].
  apply forallb_forall. intros c Hc.
  rewrite forallb_forall in Hrun. specialize (Hrun c Hc).
  unfold cls_digit_space in Hrun. apply orb_true_iff in Hrun as [?|?]; auto.
Qed.

(** X16: every string the collector returns is made of characters the
    [utf-8-sig] codec can encode (no surrogate), so the list the entry point
    hands to the writer meets the writer's precondition. *)
Theorem collect_prices_encodable
    (get_text : str -> str) (http_get : str -> option str)
    (base_url : str) (pages : Z) (delay : Q) (w : world) :
  Forall (fun price => forallb utf8_encodable price = true)
         (fst (collect_prices get_text http_get base_url pages delay w)).
Proof.
  rewrite collect_prices_run. cbn [fst]. apply Forall_forall. intros x Hx.
  apply list_elem_of_In, in_flat_map in Hx as (k & _ & Hx).
  apply list_elem_of_In in Hx. unfold page_contribution in Hx.
  destruct (http_get _) as [html|]; [|by apply elem_of_nil in Hx].
  apply extract_prices_in_findall in Hx.
  by apply findall_from_sound, price_word_encodable in Hx.
Qed.
